(** * Verification of scripts/generate_langs.py

    A shallow embedding of the aggregation, commit-count and pie-chart
    helpers of [generate_langs.py]. Python dictionaries built by the script
    are kept as association lists in insertion order, since [sorted] is
    stable and ties therefore depend on that order. Integer counts are [Z];
    the float arithmetic of [pie_paths] is modelled over the reals [R]. *)

Set Warnings "-register-all".
From Stdlib Require Import List String Ascii ZArith Lia Permutation Bool.
From Stdlib Require Import Reals Lra.
Import ListNotations.
Open Scope Z_scope.
Open Scope string_scope.
Open Scope list_scope.

(** ** Configuration *)

Definition TOP_N : nat := 5.

(** [EXCLUDED_LANGUAGES = set()] *)
Definition EXCLUDED_LANGUAGES : list string := [].

(** ** Tallies: a Python dict [str -> int] in insertion order *)

Definition tally := list (string * Z).

(** [d.get(k, 0)] *)
Fixpoint get_or_zero (k : string) (d : tally) : Z :=
  match d with
  | [] => 0
  | (k', v) :: t => if String.eqb k k' then v else get_or_zero k t
  end.

(** [d[k] = v]: an existing key keeps its position, a new key is appended. *)
Fixpoint dict_set (k : string) (v : Z) (d : tally) : tally :=
  match d with
  | [] => [(k, v)]
  | (k', v') :: t => if String.eqb k k' then (k', v) :: t else (k', v') :: dict_set k v t
  end.

(** [sum(v for _, v in items)] *)
Definition sum_values (l : tally) : Z := fold_right (fun kv acc => snd kv + acc) 0 l.

(** ** [sorted(data.items(), key=lambda x: x[1], reverse=True)]

    Python's sort is stable, also with [reverse=True]: items with equal keys
    keep their original order. A stable sort is determined by its input, so
    an insertion sort that places each new item after every item of greater
    or equal value computes the same list. *)

Fixpoint insert_desc (x : string * Z) (l : tally) : tally :=
  match l with
  | [] => [x]
  | y :: t => if Z.leb (snd x) (snd y) then y :: insert_desc x t else x :: y :: t
  end.

Definition sort_desc (l : tally) : tally :=
  fold_left (fun acc x => insert_desc x acc) l [].

(** [top_n_with_other(data)] *)
Definition top_n_with_other (data : tally) : tally :=
  let items := sort_desc data in
  let top := firstn TOP_N items in
  let other := sum_values (skipn TOP_N items) in
  if Z.ltb 0 other then top ++ [("Other", other)] else top.

(** ** Python outcomes: a value, or an exception that escapes the function *)

Inductive py_result (A : Type) : Type :=
| Ok (a : A)
| Raised.
Arguments Ok {A} a.
Arguments Raised {A}.

(** ** Repository records returned by the GraphQL listing

    [primaryLanguage] is [None] when the field is null (or an empty, falsy
    dict) and [Some n] for a dict whose ["name"] is [n] ([None] for null).
    [language_edges] lists the names of [languages.edges[*].node], and is
    [[]] when the ["languages"] or ["edges"] key is absent. *)

Record repo : Type := mk_repo {
  name : string;
  primaryLanguage : option (option string);
  language_edges : list string
}.

(** The double-quote character (code 34), to write header values. *)
Definition dquote : string := String "034"%char EmptyString.

(** Python truthiness of a string. *)
Definition truthy (s : string) : bool := negb (String.eqb s EmptyString).

(** [language_for_repo(repo)]: [None] stands for Python's [None]. *)
Definition language_for_repo (r : repo) : option string :=
  let fallback := match language_edges r with
                  | e :: _ => Some e
                  | [] => None
                  end in
  match primaryLanguage r with
  | Some (Some n) => if truthy n then Some n else fallback
  | _ => fallback
  end.

(** [not lang]: Python's [None] and the empty string are both falsy. *)
Definition lang_truthy (o : option string) : bool :=
  match o with Some s => truthy s | None => false end.

Definition excluded (lang : string) : bool :=
  existsb (String.eqb lang) EXCLUDED_LANGUAGES.

(** One iteration of the loop of [languages_by_repo_count]. *)
Definition count_step (counts : tally) (r : repo) : tally :=
  match language_for_repo r with
  | Some lang =>
      if negb (truthy lang) then counts
      else if excluded lang then counts
      else dict_set lang (get_or_zero lang counts + 1) counts
  | None => counts
  end.

(** [languages_by_repo_count(repos)] *)
Definition languages_by_repo_count (repos : list repo) : tally :=
  fold_left count_step repos [].

(** ** Strings, as Python's [str] methods use them *)

Fixpoint prefixb (p s : list ascii) : bool :=
  match p, s with
  | [], _ => true
  | c :: p', d :: s' => Ascii.eqb c d && prefixb p' s'
  | _ :: _, [] => false
  end.

(** [sub in s] *)
Fixpoint containsb (sub s : list ascii) : bool :=
  prefixb sub s || match s with [] => false | _ :: s' => containsb sub s' end.

(** [s.split(sep)] for a non-empty separator: [skip] counts the characters
    of a separator still to be passed over. *)
Fixpoint split_aux (sep s cur : list ascii) (skip : nat) : list (list ascii) :=
  match s with
  | [] => [rev cur]
  | c :: t =>
      match skip with
      | S k => split_aux sep t cur k
      | O => if prefixb sep s
             then rev cur :: split_aux sep t [] (pred (List.length sep))
             else split_aux sep t (c :: cur) O
      end
  end.

Definition py_split (s sep : string) : list string :=
  map string_of_list_ascii (split_aux (list_ascii_of_string sep) (list_ascii_of_string s) [] O).

Definition is_py_space (c : ascii) : bool :=
  existsb (Ascii.eqb c) [" "%char; "009"%char; "010"%char; "011"%char; "012"%char; "013"%char].

Fixpoint drop_spaces (l : list ascii) : list ascii :=
  match l with
  | c :: t => if is_py_space c then drop_spaces t else l
  | [] => []
  end.

Definition py_strip (l : list ascii) : list ascii := rev (drop_spaces (rev (drop_spaces l))).

Definition digit_value (c : ascii) : option Z :=
  let n := Z.of_nat (nat_of_ascii c) - 48 in
  if Z.leb 0 n && Z.leb n 9 then Some n else None.

(** Decimal digits with single underscores between digits; [prev] says
    whether the previous character was a digit. *)
Fixpoint digits_val (acc : Z) (prev : bool) (l : list ascii) : option Z :=
  match l with
  | [] => if prev then Some acc else None
  | c :: t =>
      match digit_value c with
      | Some d => digits_val (acc * 10 + d) true t
      | None => if Ascii.eqb c "_"%char && prev then digits_val acc false t else None
      end
  end.

(** [int(s)] on a [str] (ASCII): [None] stands for the [ValueError]. *)
Definition py_int (s : string) : option Z :=
  match py_strip (list_ascii_of_string s) with
  | "-"%char :: t => option_map Z.opp (digits_val 0 false t)
  | "+"%char :: t => digits_val 0 false t
  | l => digits_val 0 false l
  end.

(** ** HTTP responses of the commits endpoint

    [r.json()] is [None] when the body does not decode as JSON. *)

Inductive json : Type :=
| JNull
| JBool (b : bool)
| JNum (n : Z)
| JStr (s : string)
| JArr (l : list json)
| JObj (kvs : list (string * json)).

(** [len(x)] on a decoded JSON value; [None] is the [TypeError]. *)
Definition py_len (j : json) : option Z :=
  match j with
  | JStr s => Some (Z.of_nat (String.length s))
  | JArr l => Some (Z.of_nat (List.length l))
  | JObj kvs => Some (Z.of_nat (List.length kvs))
  | _ => None
  end.

(** The result of [requests.get]: either the call raises (connection
    error, timeout, ...), or a response with its status, its [Link] header
    (if any) and its decoded body. *)
Inductive http_result : Type :=
| HttpRaised
| HttpResp (status : Z) (link : option string) (body : option json).

(** The [for part in ...: if 'rel="last"' in part] search. *)
Fixpoint find_last_part (parts : list string) : option string :=
  match parts with
  | [] => None
  | part :: t =>
      if containsb (list_ascii_of_string ("rel=" ++ dquote ++ "last" ++ dquote)%string) (list_ascii_of_string part)
      then Some part else find_last_part t
  end.

(** [int(part.split("page=")[-1].split(">")[0])]: [None] is the exception. *)
Definition last_page_number (part : string) : option Z :=
  py_int (hd EmptyString (py_split (last (py_split part "page=") EmptyString) ">")).

(** The body of [fetch_commit_count] once [requests.get] has returned. *)
Definition commit_count_of_response (status : Z) (link : option string) (body : option json) : Z :=
  if negb (Z.eqb status 200) then 1
  else match link with
       | None =>
           match body with
           | Some j => match py_len j with Some n => n | None => 1 end
           | None => 1
           end
       | Some l =>
           match find_last_part (py_split l ",") with
           | Some part => match last_page_number part with Some n => n | None => 1 end
           | None => 1
           end
       end.

Section Network.

(** The login the script runs for, and the responses of the network. *)
Variable USERNAME : string.
Variable http_get : string -> http_result.

Definition commit_url (repo_name : string) : string :=
  "https://api.github.com/repos/" ++ USERNAME ++ "/" ++ repo_name ++ "/commits?per_page=1".

(** [fetch_commit_count(repo_name)]: nothing catches an exception raised by
    [requests.get] itself. *)
Definition fetch_commit_count (repo_name : string) : py_result Z :=
  match http_get (commit_url repo_name) with
  | HttpRaised => Raised
  | HttpResp status link body => Ok (commit_count_of_response status link body)
  end.

(** The loop of [commit_weighted_languages], from the dict built so far. *)
Fixpoint weighted_loop (weighted : tally) (repos : list repo) : py_result tally :=
  match repos with
  | [] => Ok weighted
  | r :: rs =>
      let lang := language_for_repo r in
      match lang with
      | Some l =>
          if negb (truthy l) || excluded l then weighted_loop weighted rs
          else match fetch_commit_count (name r) with
               | Raised => Raised
               | Ok commits => weighted_loop (dict_set l (get_or_zero l weighted + commits) weighted) rs
               end
      | None => weighted_loop weighted rs
      end
  end.

(** [commit_weighted_languages(repos)] *)
Definition commit_weighted_languages (repos : list repo) : py_result tally :=
  weighted_loop [] repos.

(** [render_combined(repo_data, activity_data)]: it builds the SVG text
    and writes it to [OUTPUT_FILE]. Opening or writing the file can raise,
    and so can the float arithmetic of [pie_paths] ([int / int] too large
    for a float, [round] of an infinite float), which the exact-real model
    of [pie_paths] below does not embed; so rendering is left open here: it
    returns, or it raises. *)
Variable render_combined : tally -> tally -> py_result unit.

(** [main()], up to its exit code. [listing] is the outcome of
    [fetch_repositories()]: [None] when it calls [sys.exit(1)] or raises.
    An uncaught exception ends the interpreter with exit code 1; the
    [print] calls do not change the outcome. *)
Definition main (listing : option (list repo)) : Z :=
  match listing with
  | None => 1
  | Some repos =>
      let repo_data := languages_by_repo_count repos in
      match commit_weighted_languages repos with
      | Raised => 1
      | Ok activity_data =>
          match render_combined repo_data activity_data with
          | Raised => 1
          | Ok _ => 0
          end
      end
  end.

End Network.

(** ** SVG helpers: [pie_paths]

    Float arithmetic is modelled over the reals. *)

Open Scope R_scope.

Definition OTHER_COLOR : string := "#6b7280".

(** Python's [round(x)] to an int: to the nearest integer, ties to even.
    [up x] is the least integer strictly above [x]. *)
Definition py_floor (x : R) : Z := (up x - 1)%Z.

Definition py_round (x : R) : Z :=
  let f := py_floor x in
  let d := x - IZR f in
  if Rlt_dec d (1/2) then f
  else if Rlt_dec (1/2) d then (f + 1)%Z
  else if Z.even f then f else (f + 1)%Z.

(** The path [d] of one slice, kept as the values the f-string formats:
    centre, radii, the start and end angles [a1], [a2] of the arcs, and the
    large-arc flag written into both arc commands. *)
Record arc_path : Type := mk_path {
  p_cx : R; p_cy : R;
  p_r_outer : R; p_r_inner : R;
  p_a1 : R; p_a2 : R;
  p_large : Z
}.

(** [pt(r, a)] and the four corners [(x1,y1) .. (x4,y4)] of the path. *)
Definition pt (cx cy r a : R) : R * R := (cx + r * cos a, cy + r * sin a).

Definition path_points (p : arc_path) : list (R * R) :=
  [pt (p_cx p) (p_cy p) (p_r_outer p) (p_a1 p); pt (p_cx p) (p_cy p) (p_r_outer p) (p_a2 p);
   pt (p_cx p) (p_cy p) (p_r_inner p) (p_a2 p); pt (p_cx p) (p_cy p) (p_r_inner p) (p_a1 p)].

(** The tuple [(d, color, label, round(frac * 100))]. *)
Record slice : Type := mk_slice {
  s_path : arc_path;
  s_color : string;
  s_label : string;
  s_pct : Z
}.

(** The callers pass the non-empty palettes [REPO_COLORS] and
    [ACTIVITY_COLORS]: a palette is its first colour and the rest. *)
Definition palette := (string * list string)%type.

Definition palette_color (colors : palette) (i : nat) : string :=
  let l := fst colors :: snd colors in
  nth (Nat.modulo i (List.length l)) l OTHER_COLOR.

Definition REPO_COLORS : palette := ("#f97316", ["#eab308"; "#22c55e"; "#fb7185"; "#a78bfa"]).
Definition ACTIVITY_COLORS : palette := ("#06b6d4", ["#6366f1"; "#00c2a8"; "#ff6b6b"; "#ffd166"]).

(** [sum(v for _, v in data) or 1] *)
Definition pie_total (data : tally) : Z :=
  let t := sum_values data in if Z.eqb t 0 then 1%Z else t.

(** The loop of [pie_paths], from index [i] and current [angle]. *)
Fixpoint pie_loop (cx cy r_outer r_inner : R) (colors : palette) (total : Z)
    (i : nat) (angle : R) (data : tally) : list slice :=
  match data with
  | [] => []
  | (label, value) :: rest =>
      let frac := IZR value / IZR total in
      let delta := frac * 2 * PI in
      let a1 := angle in
      let a2 := angle + delta in
      let large := if Rlt_dec PI delta then 1%Z else 0%Z in
      let color := if String.eqb label "Other" then OTHER_COLOR else palette_color colors i in
      mk_slice (mk_path cx cy r_outer r_inner a1 a2 large) color label (py_round (frac * 100))
        :: pie_loop cx cy r_outer r_inner colors total (S i) a2 rest
  end.

(** [pie_paths(data, cx, cy, r_outer, r_inner, colors)] *)
Definition pie_paths (data : tally) (cx cy r_outer r_inner : R) (colors : palette) : list slice :=
  pie_loop cx cy r_outer r_inner colors (pie_total data) 0 (- PI / 2) data.

(** The angular span of a slice. *)
Definition span (s : slice) : R := p_a2 (s_path s) - p_a1 (s_path s).

Definition sum_spans (l : list slice) : R := fold_right (fun s acc => span s + acc) 0 l.

Close Scope R_scope.

(** ** [fetch_repositories]: the paginated GraphQL listing

    A response of the GraphQL endpoint: [requests.post] raises, or it
    returns a status, the [errors] list of the body (empty when absent or
    null) and the [repositories] connection, [None] when
    [data["data"]["user"]["repositories"]] cannot be read (a null user). *)

Record gql_page : Type := mk_page {
  nodes : list repo;
  hasNextPage : bool;
  endCursor : option string
}.

Inductive gql_result : Type :=
| GqlRaised
| GqlResp (status : Z) (errors : list json) (page : option gql_page).

(** How [fetch_repositories()] ends: [sys.exit(1)], an escaping exception,
    or the returned list. *)
Inductive listing_outcome : Type :=
| ListingExit1
| ListingRaised
| ListingDone (repos : list repo).

(** The [while True] loop from a [cursor] with the nodes [repos] gathered so
    far; [post cursor] is the response to the query with [after: cursor].
    The loop need not end (a server may keep announcing a next page), so
    it is a relation between its start and its outcome. *)
Inductive fetch_loop (post : option string -> gql_result) :
    option string -> list repo -> listing_outcome -> Prop :=
| fetch_raised cursor repos :
    post cursor = GqlRaised -> fetch_loop post cursor repos ListingRaised
| fetch_bad_status cursor repos status errors page :
    post cursor = GqlResp status errors page -> status <> 200%Z ->
    fetch_loop post cursor repos ListingExit1
| fetch_errors cursor repos errors page :
    post cursor = GqlResp 200 errors page -> errors <> [] ->
    fetch_loop post cursor repos ListingExit1
| fetch_no_user cursor repos :
    post cursor = GqlResp 200 [] None -> fetch_loop post cursor repos ListingRaised
| fetch_last cursor repos page :
    post cursor = GqlResp 200 [] (Some page) -> hasNextPage page = false ->
    fetch_loop post cursor repos (ListingDone (repos ++ nodes page))
| fetch_next cursor repos page outcome :
    post cursor = GqlResp 200 [] (Some page) -> hasNextPage page = true ->
    fetch_loop post (endCursor page) (repos ++ nodes page) outcome ->
    fetch_loop post cursor repos outcome.

(** [fetch_repositories()] starts with [cursor = None] and [repos = []]. *)
Definition fetch_repositories (post : option string -> gql_result) (outcome : listing_outcome) : Prop :=
  fetch_loop post None [] outcome.

(** A sequence of pages served without error from [cursor] on, each one
    announcing the next, the last one announcing none. *)
Fixpoint page_chain (post : option string -> gql_result) (cursor : option string)
    (pages : list gql_page) : Prop :=
  match pages with
  | [] => False
  | [p] => post cursor = GqlResp 200 [] (Some p) /\ hasNextPage p = false
  | p :: ps => post cursor = GqlResp 200 [] (Some p) /\ hasNextPage p = true /\
               page_chain post (endCursor p) ps
  end.

(** Pages served without error from [cursor] on, each announcing a next
    page, the last announcing the cursor [final]. *)
Fixpoint page_prefix (post : option string -> gql_result) (cursor : option string)
    (pages : list gql_page) (final : option string) : Prop :=
  match pages with
  | [] => final = cursor
  | p :: ps => post cursor = GqlResp 200 [] (Some p) /\ hasNextPage p = true /\
               page_prefix post (endCursor p) ps final
  end.

(** ** The [Link] header GitHub sends with the first commit page

    For a repository with numeric id [repo_id] whose history has
    [last_page] pages of one commit, GitHub links the next page (2) and the
    last one. *)

Definition is_digit (c : ascii) : bool :=
  match digit_value c with Some _ => true | None => false end.

(** The value of a decimal numeral. *)
Definition decimal_value (ds : list ascii) : Z :=
  fold_left (fun acc c => acc * 10 + (Z.of_nat (nat_of_ascii c) - 48)) ds 0.

Definition github_commits_url (repo_id page : list ascii) : list ascii :=
  list_ascii_of_string "<https://api.github.com/repositories/" ++ repo_id ++
  list_ascii_of_string "/commits?per_page=1&page=" ++ page ++ [">"%char].

Definition github_link (repo_id last_page : list ascii) : string :=
  string_of_list_ascii
    (github_commits_url repo_id ["2"%char] ++
     list_ascii_of_string ("; rel=" ++ dquote ++ "next" ++ dquote ++ ", ")%string ++
     github_commits_url repo_id last_page ++
     list_ascii_of_string ("; rel=" ++ dquote ++ "last" ++ dquote)%string).

(** ** Vocabulary for the properties of the aggregation

    [attributed r] is the language a repository is counted under by both
    tallies: the resolved language when it is truthy and not excluded. *)

Definition attributed (r : repo) : option string :=
  match language_for_repo r with
  | Some l => if truthy l && negb (excluded l) then Some l else None
  | None => None
  end.

Definition is_attributed_to (lang : string) (r : repo) : bool :=
  match attributed r with Some l => String.eqb l lang | None => false end.

(** How many repositories are attributed to [lang]. *)
Definition repo_count (lang : string) (repos : list repo) : Z :=
  Z.of_nat (List.length (filter (is_attributed_to lang) repos)).

(** The commit count [fetch_commit_count] returns for a repository whose
    request does not raise. *)
Definition commit_count_of (USERNAME : string) (http_get : string -> http_result) (r : repo) : Z :=
  match http_get (commit_url USERNAME (name r)) with
  | HttpResp status link body => commit_count_of_response status link body
  | HttpRaised => 0
  end.

(** The commits of the repositories attributed to [lang]. *)
Definition commit_total (USERNAME : string) (http_get : string -> http_result)
    (lang : string) (repos : list repo) : Z :=
  fold_right (fun r acc => if is_attributed_to lang r then (commit_count_of USERNAME http_get r + acc)%Z else acc)
    0%Z repos.

(** * Properties *)

From Stdlib Require Import Sorting.Sorted.

(** ** The stable descending sort *)

Definition desc (x y : string * Z) : Prop := (snd y <= snd x)%Z.

Lemma insert_desc_perm (x : string * Z) (l : tally) :
  Permutation (insert_desc x l) (x :: l).
Proof.
  induction l as [|y t IH]; simpl; [constructor; constructor|].
  destruct (Z.leb (snd x) (snd y)); [|reflexivity].
  rewrite IH. apply perm_swap.
Qed.

Lemma sort_desc_app_one (l : tally) (x : string * Z) :
  sort_desc (l ++ [x]) = insert_desc x (sort_desc l).
Proof. unfold sort_desc. now rewrite fold_left_app. Qed.

Lemma sort_desc_perm (l : tally) : Permutation (sort_desc l) l.
Proof.
  induction l as [|x l IH] using rev_ind; [reflexivity|].
  rewrite sort_desc_app_one, insert_desc_perm, IH.
  apply Permutation_cons_append.
Qed.

Lemma insert_desc_sorted (x : string * Z) (l : tally) :
  Sorted desc l -> Sorted desc (insert_desc x l).
Proof.
  induction l as [|y t IH]; simpl; intros Hs.
  - repeat constructor.
  - case_eq (Z.leb (snd x) (snd y)); intros Hxy.
    + apply Sorted_inv in Hs as [Ht Hh].
      constructor; [now apply IH|].
      destruct t as [|z t']; simpl.
      * constructor. unfold desc. apply Z.leb_le in Hxy. exact Hxy.
      * inversion Hh; subst.
        destruct (Z.leb (snd x) (snd z)); constructor; [assumption|].
        unfold desc. apply Z.leb_le in Hxy. exact Hxy.
    + constructor; [exact Hs|]. constructor. unfold desc.
      apply Z.leb_gt in Hxy. lia.
Qed.

Lemma sort_desc_sorted (l : tally) : Sorted desc (sort_desc l).
Proof.
  induction l as [|x l IH] using rev_ind; [constructor|].
  rewrite sort_desc_app_one. now apply insert_desc_sorted.
Qed.

(** Inserting an item no larger than every item already there appends it. *)
Lemma insert_desc_last (x : string * Z) (l : tally) :
  Forall (fun y => desc y x) l -> insert_desc x l = l ++ [x].
Proof.
  induction l as [|y t IH]; simpl; intros H; [reflexivity|].
  inversion H as [|? ? Hy Ht]; subst. unfold desc in Hy.
  replace (Z.leb (snd x) (snd y)) with true by (symmetry; apply Z.leb_le; lia).
  now rewrite IH.
Qed.

Lemma sorted_app_inv (l1 l2 : tally) :
  Sorted desc (l1 ++ l2) -> Sorted desc l1 /\ Sorted desc l2.
Proof.
  induction l1 as [|x l1 IH]; simpl; intros H; [split; [constructor|exact H]|].
  apply Sorted_inv in H as [H Hh]. apply IH in H as [H1 H2].
  split; [|exact H2]. constructor; [exact H1|].
  destruct l1; simpl in *; [constructor|]. inversion Hh; subst; constructor; assumption.
Qed.

Lemma strongly_sorted_last (l : tally) (x : string * Z) :
  StronglySorted desc (l ++ [x]) -> Forall (fun y => desc y x) l.
Proof.
  induction l as [|y l IH]; simpl; intros H; [constructor|].
  inversion H as [|? ? Hs Hall]; subst. constructor.
  - rewrite Forall_forall in Hall. apply Hall, in_or_app. right. now left.
  - now apply IH.
Qed.

Lemma desc_trans : Relations_1.Transitive desc.
Proof. unfold Relations_1.Transitive, desc. intros a b c; lia. Qed.

(** A list already sorted descending is left unchanged by the sort. *)
Lemma sort_desc_sorted_id (l : tally) : Sorted desc l -> sort_desc l = l.
Proof.
  induction l as [|x l IH] using rev_ind; intros Hs; [reflexivity|].
  rewrite sort_desc_app_one.
  pose proof (sorted_app_inv _ _ Hs) as [Hl _].
  rewrite (IH Hl). apply insert_desc_last, strongly_sorted_last.
  apply Sorted_StronglySorted; [exact desc_trans|exact Hs].
Qed.

(** ** [top_n_with_other] *)

(** The value of the synthetic ["Other"] entry: the items beyond rank [TOP_N]. *)
Definition other_remainder (data : tally) : Z := sum_values (skipn TOP_N (sort_desc data)).

Lemma top_n_with_other_shape (data : tally) :
  top_n_with_other data =
  firstn TOP_N (sort_desc data) ++
  (if Z.ltb 0 (other_remainder data) then [("Other", other_remainder data)] else []).
Proof.
  unfold top_n_with_other, other_remainder.
  destruct (Z.ltb 0 _); [reflexivity|]. now rewrite app_nil_r.
Qed.

Lemma sum_values_app (l1 l2 : tally) : sum_values (l1 ++ l2) = (sum_values l1 + sum_values l2)%Z.
Proof. induction l1 as [|x l1 IH]; simpl; [reflexivity|]. rewrite IH. lia. Qed.

Lemma sum_values_perm (l1 l2 : tally) : Permutation l1 l2 -> sum_values l1 = sum_values l2.
Proof. induction 1; simpl; lia. Qed.

Lemma sum_values_nonneg (l : tally) : Forall (fun kv => (0 <= snd kv)%Z) l -> (0 <= sum_values l)%Z.
Proof. induction 1; simpl; lia. Qed.

Lemma in_firstn (n : nat) (l : tally) (x : string * Z) : In x (firstn n l) -> In x l.
Proof. intros H. rewrite <- (firstn_skipn n l). now apply in_or_app; left. Qed.

Lemma firstn_sorted (n : nat) (l : tally) : Sorted desc l -> Sorted desc (firstn n l).
Proof.
  intros H. rewrite <- (firstn_skipn n l) in H. now apply sorted_app_inv in H as [H _].
Qed.

(** The re-sorting rule of the chart lists: entries ordered by value,
    descending and stably, with a final ["Other"] entry kept last. *)
Definition resort (l : tally) : tally :=
  match rev l with
  | (k, v) :: rinit => if String.eqb k "Other" then sort_desc (rev rinit) ++ [(k, v)] else sort_desc l
  | [] => []
  end.

(** C1: the output has at most [TOP_N + 1] entries: the first [TOP_N]
    items of the sorted tally, then an ["Other"] entry exactly when the sum
    of the items beyond rank [TOP_N] is strictly positive, holding that sum.
    When no language of the tally is itself called ["Other"], an entry
    labelled ["Other"] thus appears exactly when that remainder is positive,
    and its value is the remainder. *)
Theorem top_n_with_other_other_entry (data : tally) :
  (List.length (top_n_with_other data) <= TOP_N + 1)%nat /\
  top_n_with_other data =
    firstn TOP_N (sort_desc data) ++
    (if Z.ltb 0 (other_remainder data) then [("Other", other_remainder data)] else []) /\
  (~ In "Other" (map fst data) ->
     ((exists v, In ("Other", v) (top_n_with_other data)) <-> (0 < other_remainder data)%Z) /\
     (forall v, In ("Other", v) (top_n_with_other data) -> v = other_remainder data)).
Proof.
  rewrite top_n_with_other_shape.
  assert (Hnot : forall v, ~ In "Other" (map fst data) -> ~ In ("Other", v) (firstn TOP_N (sort_desc data))).
  { intros v Hn Hin. apply Hn. apply in_firstn in Hin.
    apply (Permutation_in _ (sort_desc_perm data)) in Hin.
    change "Other" with (fst ("Other", v)). now apply in_map. }
  split; [|split; [reflexivity|]].
  - rewrite length_app, length_firstn. pose proof (Nat.le_min_l TOP_N (List.length (sort_desc data))). destruct (Z.ltb 0 (other_remainder data)); cbn [List.length]; lia.
  - intros Hn. case_eq (Z.ltb 0 (other_remainder data)); intros Hlt.
    + apply Z.ltb_lt in Hlt. split.
      * split; [intros _; exact Hlt|]. intros _. exists (other_remainder data).
        apply in_or_app. right. now left.
      * intros v Hin. apply in_app_or in Hin as [Hin|Hin]; [now apply Hnot in Hin|].
        destruct Hin as [Heq|[]]. now inversion Heq.
    + apply Z.ltb_ge in Hlt. rewrite app_nil_r. split.
      * split; [|lia]. intros [v Hin]. now apply Hnot in Hin.
      * intros v Hin. now apply Hnot in Hin.
Qed.

(** C5: the output of [top_n_with_other] is in its final order: the entries
    taken from the tally are sorted descending by value (by Python's stable
    sort), an ["Other"] entry, when appended, comes last whatever its value,
    and re-sorting the output by that rule leaves it unchanged. *)
Theorem top_n_with_other_resort_id (data : tally) :
  Sorted desc (firstn TOP_N (sort_desc data)) /\
  resort (top_n_with_other data) = top_n_with_other data.
Proof.
  pose proof (firstn_sorted TOP_N _ (sort_desc_sorted data)) as Hs.
  split; [exact Hs|].
  rewrite top_n_with_other_shape.
  set (top := firstn TOP_N (sort_desc data)) in *.
  destruct (Z.ltb 0 (other_remainder data)).
  - unfold resort. rewrite rev_unit. simpl.
    rewrite rev_involutive. now rewrite (sort_desc_sorted_id _ Hs).
  - rewrite app_nil_r. unfold resort.
    case_eq (rev top); [intros E; now rewrite <- (rev_involutive top), E|].
    intros [k v] rinit E.
    assert (Htop : top = rev rinit ++ [(k, v)]).
    { rewrite <- (rev_involutive top), E. reflexivity. }
    destruct (String.eqb k "Other").
    + rewrite Htop in Hs. apply sorted_app_inv in Hs as [Hs _].
      now rewrite (sort_desc_sorted_id _ Hs).
    + now apply sort_desc_sorted_id.
Qed.

(** C10: when every value of the tally is non-negative, the values of the
    output of [top_n_with_other], ["Other"] included, sum to the total of
    the tally. *)
Theorem top_n_with_other_total (data : tally)
    (Hnonneg : Forall (fun kv => (0 <= snd kv)%Z) data) :
  sum_values (top_n_with_other data) = sum_values data.
Proof.
  rewrite top_n_with_other_shape, sum_values_app.
  rewrite <- (sum_values_perm _ _ (sort_desc_perm data)).
  rewrite <- (firstn_skipn TOP_N (sort_desc data)) at 2.
  rewrite sum_values_app. fold (other_remainder data).
  case_eq (Z.ltb 0 (other_remainder data)); intros Hlt; simpl; [lia|].
  apply Z.ltb_ge in Hlt.
  assert (H0 : (0 <= other_remainder data)%Z).
  { apply sum_values_nonneg.
    assert (Hs : Forall (fun kv => (0 <= snd kv)%Z) (sort_desc data)).
    { rewrite Forall_forall in *. intros x Hx. apply Hnonneg.
      exact (Permutation_in _ (sort_desc_perm data) Hx). }
    rewrite <- (firstn_skipn TOP_N (sort_desc data)) in Hs.
    now apply Forall_app in Hs as [_ Hs]. }
  lia.
Qed.

Lemma top_n_with_other_total_witness :
  Forall (fun kv => (0 <= snd kv)%Z)
    [("Python", 4); ("C", 3); ("Go", 3); ("Rust", 2); ("Java", 2); ("Lua", 1); ("Shell", 0)] /\
  sum_values (top_n_with_other
    [("Python", 4); ("C", 3); ("Go", 3); ("Rust", 2); ("Java", 2); ("Lua", 1); ("Shell", 0)]) = 15%Z.
Proof.
  assert (H : Forall (fun kv => (0 <= snd kv)%Z)
    [("Python", 4); ("C", 3); ("Go", 3); ("Rust", 2); ("Java", 2); ("Lua", 1); ("Shell", 0)])
    by (repeat constructor; simpl; lia).
  split; [exact H|].
  rewrite (top_n_with_other_total _ H). reflexivity.
Defined.

(** ** Aggregation *)

Lemma language_for_repo_none (r : repo) :
  (primaryLanguage r = None \/ primaryLanguage r = Some None \/ primaryLanguage r = Some (Some EmptyString)) ->
  language_edges r = [] -> language_for_repo r = None.
Proof.
  intros Hpl He. unfold language_for_repo. rewrite He.
  destruct Hpl as [H|[H|H]]; rewrite H; reflexivity.
Qed.

Lemma weighted_loop_skip (USERNAME : string) (http_get : string -> http_result)
    (r : repo) (pre post : list repo) (w : tally) :
  language_for_repo r = None ->
  weighted_loop USERNAME http_get w (pre ++ r :: post) = weighted_loop USERNAME http_get w (pre ++ post).
Proof.
  intros Hr. revert w. induction pre as [|q pre IH]; intros w; simpl.
  - now rewrite Hr.
  - destruct (language_for_repo q) as [l|]; [|apply IH].
    destruct (negb (truthy l) || excluded l); [apply IH|].
    destruct (fetch_commit_count USERNAME http_get (name q)); [apply IH|reflexivity].
Qed.

(** C2: a repository whose primary language is absent (null, or without a
    non-empty name) and whose language breakdown is empty changes neither
    the repository-count tally nor the commit-weighted tally, wherever it
    sits in the listing: both dicts are exactly those built without it (no
    value changes and no key, ["unknown"] or other, is created). *)
Theorem no_language_repo_ignored (USERNAME : string) (http_get : string -> http_result)
    (r : repo) (pre post : list repo)
    (Hpl : primaryLanguage r = None \/ primaryLanguage r = Some None \/
           primaryLanguage r = Some (Some EmptyString))
    (Hedges : language_edges r = []) :
  languages_by_repo_count (pre ++ r :: post) = languages_by_repo_count (pre ++ post) /\
  commit_weighted_languages USERNAME http_get (pre ++ r :: post) =
    commit_weighted_languages USERNAME http_get (pre ++ post).
Proof.
  pose proof (language_for_repo_none r Hpl Hedges) as Hr. split.
  - unfold languages_by_repo_count. rewrite !fold_left_app. simpl.
    unfold count_step at 2. now rewrite Hr.
  - now apply weighted_loop_skip.
Qed.

Lemma no_language_repo_ignored_witness :
  (primaryLanguage (mk_repo "notes" (Some None) []) = None \/
   primaryLanguage (mk_repo "notes" (Some None) []) = Some None \/
   primaryLanguage (mk_repo "notes" (Some None) []) = Some (Some EmptyString)) /\
  language_edges (mk_repo "notes" (Some None) []) = [] /\
  languages_by_repo_count
    ([mk_repo "site" (Some (Some "HTML")) []] ++ mk_repo "notes" (Some None) [] ::
     [mk_repo "tool" None ["Python"]]) = [("HTML", 1%Z); ("Python", 1%Z)] /\
  commit_weighted_languages "octo" (fun _ => HttpResp 200 None (Some (JArr [JNull])))
    ([mk_repo "site" (Some (Some "HTML")) []] ++ mk_repo "notes" (Some None) [] ::
     [mk_repo "tool" None ["Python"]]) = Ok [("HTML", 1%Z); ("Python", 1%Z)].
Proof.
  assert (Hpl : primaryLanguage (mk_repo "notes" (Some None) []) = None \/
                primaryLanguage (mk_repo "notes" (Some None) []) = Some None \/
                primaryLanguage (mk_repo "notes" (Some None) []) = Some (Some EmptyString))
    by (right; left; reflexivity).
  assert (He : language_edges (mk_repo "notes" (Some None) []) = []) by reflexivity.
  destruct (no_language_repo_ignored "octo" (fun _ => HttpResp 200 None (Some (JArr [JNull])))
              (mk_repo "notes" (Some None) []) [mk_repo "site" (Some (Some "HTML")) []]
              [mk_repo "tool" None ["Python"]] Hpl He) as [H1 H2].
  split; [exact Hpl|]. split; [exact He|]. split.
  - rewrite H1. reflexivity.
  - rewrite H2. reflexivity.
Defined.

(** ** [fetch_commit_count] and the run *)

Lemma weighted_loop_attributed (USERNAME : string) (http_get : string -> http_result)
    (w : tally) (r : repo) (rs : list repo) :
  weighted_loop USERNAME http_get w (r :: rs) =
  match attributed r with
  | Some l =>
      match fetch_commit_count USERNAME http_get (name r) with
      | Raised => Raised
      | Ok commits => weighted_loop USERNAME http_get (dict_set l (get_or_zero l w + commits) w) rs
      end
  | None => weighted_loop USERNAME http_get w rs
  end.
Proof.
  simpl. unfold attributed.
  destruct (language_for_repo r) as [l|]; [|reflexivity].
  destruct (truthy l), (excluded l); reflexivity.
Qed.

Lemma weighted_loop_raised_iff (USERNAME : string) (http_get : string -> http_result)
    (repos : list repo) : forall (w : tally),
  weighted_loop USERNAME http_get w repos = Raised <->
  exists r, In r repos /\ attributed r <> None /\ http_get (commit_url USERNAME (name r)) = HttpRaised.
Proof.
  induction repos as [|r rs IH]; intros w.
  - simpl. split; [discriminate|]. intros [r [[] _]].
  - rewrite weighted_loop_attributed. unfold fetch_commit_count.
    case_eq (attributed r); [intros l Hl|intros Hl].
    + case_eq (http_get (commit_url USERNAME (name r))); [intros E|intros st lk bd E].
      * split; [intros _|reflexivity]. exists r. split; [now left|]. split; [congruence|exact E].
      * rewrite IH. split; intros [q [Hq [Ha Hr]]].
        -- exists q. split; [now right|]. now split.
        -- destruct Hq as [<-|Hq]; [congruence|]. exists q. now repeat split.
    + rewrite IH. split; intros [q [Hq [Ha Hr]]].
      * exists q. split; [now right|]. now split.
      * destruct Hq as [<-|Hq]; [congruence|]. exists q. now repeat split.
Qed.

(** C3 (amended): once [requests.get] has returned a response,
    [fetch_commit_count] never fails: a non-200 status, a body that does not
    decode or has no length, a [Link] header without a [rel="last"] part and
    a last-page number that does not parse all give the fallback 1. An
    exception raised by [requests.get] itself is not caught and escapes the
    function; when it happens for a repository whose commits are requested
    (one attributed a language), the run ends with exit code 1. A run whose
    repository listing succeeds and in which no commit-count request that
    is made raises ends with exit code 0 exactly when [render_combined]
    returns, whatever statuses the commit requests return. *)
Theorem fetch_commit_count_non_fatal (USERNAME : string) (http_get : string -> http_result)
    (repo_name : string) :
  (forall status link body,
     http_get (commit_url USERNAME repo_name) = HttpResp status link body ->
     fetch_commit_count USERNAME http_get repo_name = Ok (commit_count_of_response status link body) /\
     (status <> 200%Z -> commit_count_of_response status link body = 1%Z) /\
     (link = None -> (body = None \/ exists j, body = Some j /\ py_len j = None) ->
        commit_count_of_response status link body = 1%Z) /\
     (forall l, link = Some l ->
        (find_last_part (py_split l ",") = None \/
         exists part, find_last_part (py_split l ",") = Some part /\ last_page_number part = None) ->
        commit_count_of_response status link body = 1%Z)) /\
  (http_get (commit_url USERNAME repo_name) = HttpRaised ->
     fetch_commit_count USERNAME http_get repo_name = Raised) /\
  (forall render_combined repos,
     (exists r, In r repos /\ attributed r <> None /\
        http_get (commit_url USERNAME (name r)) = HttpRaised) ->
     main USERNAME http_get render_combined (Some repos) = 1%Z) /\
  (forall render_combined repos,
     (forall r, In r repos -> attributed r <> None ->
        http_get (commit_url USERNAME (name r)) <> HttpRaised) ->
     exists activity_data,
       commit_weighted_languages USERNAME http_get repos = Ok activity_data /\
       (render_combined (languages_by_repo_count repos) activity_data <> Raised ->
          main USERNAME http_get render_combined (Some repos) = 0%Z) /\
       (render_combined (languages_by_repo_count repos) activity_data = Raised ->
          main USERNAME http_get render_combined (Some repos) = 1%Z)).
Proof.
  split; [|split; [|split]].
  - intros status link body E. unfold fetch_commit_count. rewrite E.
    split; [reflexivity|]. unfold commit_count_of_response. split; [|split].
    + intros Hs. apply Z.eqb_neq in Hs. now rewrite Hs.
    + intros -> Hb. destruct (negb (Z.eqb status 200)); [reflexivity|].
      destruct Hb as [->|[j [-> Hj]]]; [reflexivity|]. now rewrite Hj.
    + intros l -> Hl. destruct (negb (Z.eqb status 200)); [reflexivity|].
      destruct Hl as [->|[part [-> Hp]]]; [reflexivity|]. now rewrite Hp.
  - intros E. unfold fetch_commit_count. now rewrite E.
  - intros render_combined repos Hr. unfold main, commit_weighted_languages.
    apply (weighted_loop_raised_iff USERNAME http_get repos []) in Hr. now rewrite Hr.
  - intros render_combined repos Hnet. unfold main, commit_weighted_languages.
    case_eq (weighted_loop USERNAME http_get [] repos); [intros w Hw|intros Hw].
    + exists w. split; [reflexivity|].
      split; [intros Hne|intros ->; reflexivity].
      destruct (render_combined (languages_by_repo_count repos) w); [reflexivity|congruence].
    + exfalso. apply weighted_loop_raised_iff in Hw. destruct Hw as [r [Hin [Ha Hr]]].
      exact (Hnet r Hin Ha Hr).
Qed.

(** C3: an exception raised by the HTTP call of [fetch_commit_count]
    (here, for every request) is not turned into the fallback 1: it escapes,
    and the run ends with exit code 1 although the listing succeeded. *)
Lemma fetch_commit_count_request_exception :
  fetch_commit_count "octo" (fun _ => HttpRaised) "site" = Raised /\
  main "octo" (fun _ => HttpRaised) (fun _ _ => Ok tt)
    (Some [mk_repo "site" (Some (Some "HTML")) []]) = 1%Z.
Proof. split; reflexivity. Qed.

(** C6 (amended): for a status-200 response, when a [Link] header is present
    and one of its comma-separated parts contains [rel="last"], the count is
    the integer between the last ["page="] of the first such part and the
    following [">"], or 1 when that text is not an integer; when a [Link]
    header is present without such a part, the count is 1; when there is no
    [Link] header, the count is the length of the decoded page, or 1 when the
    body does not decode or has no length. *)
Theorem commit_count_status_200 (link : option string) (body : option json) :
  (forall l part n, link = Some l -> find_last_part (py_split l ",") = Some part ->
     last_page_number part = Some n -> commit_count_of_response 200 link body = n) /\
  (forall l part, link = Some l -> find_last_part (py_split l ",") = Some part ->
     last_page_number part = None -> commit_count_of_response 200 link body = 1%Z) /\
  (forall l, link = Some l -> find_last_part (py_split l ",") = None ->
     commit_count_of_response 200 link body = 1%Z) /\
  (forall j n, link = None -> body = Some j -> py_len j = Some n ->
     commit_count_of_response 200 link body = n) /\
  (link = None -> (body = None \/ exists j, body = Some j /\ py_len j = None) ->
     commit_count_of_response 200 link body = 1%Z).
Proof.
  unfold commit_count_of_response; simpl.
  split; [|split; [|split; [|split]]].
  - intros l part n -> Hp Hn. now rewrite Hp, Hn.
  - intros l part -> Hp Hn. now rewrite Hp, Hn.
  - intros l -> Hp. now rewrite Hp.
  - intros j n -> -> Hj. now rewrite Hj.
  - intros -> [->|[j [-> Hj]]]; [reflexivity|now rewrite Hj].
Qed.

(** C6: a 200 response whose [Link] header has no [rel="last"] part (only a
    ["next"] link) and whose page is the empty list: the count is 1, not the
    page length 0. *)
Lemma commit_count_link_without_last :
  find_last_part (py_split ("<https://api.github.com/repositories/1/commits?per_page=1&page=2>; rel=" ++ dquote ++ "next" ++ dquote)%string ",") = None /\
  py_len (JArr []) = Some 0%Z /\
  fetch_commit_count "octo"
    (fun _ => HttpResp 200 (Some ("<https://api.github.com/repositories/1/commits?per_page=1&page=2>; rel=" ++ dquote ++ "next" ++ dquote)%string)
                (Some (JArr []))) "site" = Ok 1%Z.
Proof. repeat split; reflexivity. Qed.

(** The [Link] header GitHub sends for the first page of a longer history. *)
Example commit_count_github_link :
  commit_count_of_response 200
    (Some ("<https://api.github.com/repositories/1/commits?per_page=1&page=2>; rel=" ++ dquote ++ "next" ++ dquote ++
           ", <https://api.github.com/repositories/1/commits?per_page=1&page=57>; rel=" ++ dquote ++ "last" ++ dquote)%string)
    None = 57%Z.
Proof. reflexivity. Qed.

(** ** [pie_paths] *)

Open Scope R_scope.


Lemma py_floor_unique (x : R) (k : Z) : IZR k <= x < IZR k + 1 -> py_floor x = k.
Proof.
  intros [H1 H2]. unfold py_floor.
  rewrite <- (tech_up x (k + 1)); [lia| |]; rewrite plus_IZR; simpl; lra.
Qed.


(** Away from ties, [round] is the nearest integer. *)
Lemma py_round_eq (x : R) (z : Z) : IZR z - 1/2 < x < IZR z + 1/2 -> py_round x = z.
Proof.
  intros [H1 H2]. unfold py_round.
  destruct (Rlt_dec x (IZR z)) as [Hlt|Hge].
  - rewrite (py_floor_unique x (z - 1)) by (rewrite minus_IZR; simpl; lra).
    rewrite minus_IZR. simpl.
    destruct (Rlt_dec (x - (IZR z - 1)) (1/2)); [lra|].
    destruct (Rlt_dec (1/2) (x - (IZR z - 1))); [lia|lra].
  - rewrite (py_floor_unique x z) by lra.
    destruct (Rlt_dec (x - IZR z) (1/2)); [reflexivity|lra].
Qed.

Lemma pie_total_nonzero (data : tally) : pie_total data <> 0%Z.
Proof.
  unfold pie_total. case_eq (Z.eqb (sum_values data) 0); intros H; [discriminate|].
  now apply Z.eqb_neq.
Qed.

(** Slice by slice, [pie_loop] gives each entry of the data its span
    [value / total * 2 pi], its rounded percentage and its large-arc flag. *)
Lemma pie_loop_slices (cx cy r_outer r_inner : R) (colors : palette) (total : Z)
    (i : nat) (angle : R) (data : tally) :
  Forall2 (fun kv s =>
      span s = IZR (snd kv) / IZR total * 2 * PI /\
      s_pct s = py_round (IZR (snd kv) / IZR total * 100) /\
      p_large (s_path s) = (if Rlt_dec PI (IZR (snd kv) / IZR total * 2 * PI) then 1 else 0)%Z)
    data (pie_loop cx cy r_outer r_inner colors total i angle data).
Proof.
  revert i angle. induction data as [|[label value] rest IH]; intros i angle; simpl;
    constructor; [|apply IH].
  unfold span; simpl. split; [ring|split; reflexivity].
Qed.

Lemma sum_spans_loop (cx cy r_outer r_inner : R) (colors : palette) (total : Z)
    (i : nat) (angle : R) (data : tally) :
  sum_spans (pie_loop cx cy r_outer r_inner colors total i angle data) =
  IZR (sum_values data) / IZR total * 2 * PI.
Proof.
  revert i angle. induction data as [|[label value] rest IH]; intros i angle.
  - simpl. unfold Rdiv. ring.
  - cbn [pie_loop sum_spans fold_right sum_values]. fold (sum_spans (pie_loop cx cy r_outer r_inner colors total (S i) (angle + IZR value / IZR total * 2 * PI) rest)).
    rewrite IH. unfold span; simpl. fold (sum_values rest). rewrite plus_IZR. unfold Rdiv. ring.
Qed.

(** C4 (amended): the angular spans of the slices drawn by [pie_paths] sum
    to exactly [2 pi] when the values of the data sum to a non-zero number,
    and to 0 when they sum to zero (in particular for an empty list), since
    the divisor is then 1 and the values sum to 0. *)
Theorem pie_spans_total (data : tally) (cx cy r_outer r_inner : R) (colors : palette) :
  sum_spans (pie_paths data cx cy r_outer r_inner colors) =
  if Z.eqb (sum_values data) 0 then 0 else 2 * PI.
Proof.
  unfold pie_paths. rewrite sum_spans_loop. unfold pie_total.
  case_eq (Z.eqb (sum_values data) 0); intros H.
  - apply Z.eqb_eq in H. rewrite H. unfold Rdiv. ring.
  - apply Z.eqb_neq in H. field. now apply not_0_IZR.
Qed.

(** C4: with an empty tally, as an empty repository listing produces, the
    chart has no slice and the spans sum to 0, not to [2 pi]. *)
Lemma pie_spans_empty_tally :
  sum_spans (pie_paths (top_n_with_other []) 280 160 88 56 REPO_COLORS) = 0 /\ 0 <> 2 * PI.
Proof.
  split; [reflexivity|]. pose proof PI_RGT_0. lra.
Qed.

(** C7: the large-arc flag of every slice is 1 exactly when the slice's
    angular span exceeds [pi] strictly, and 0 otherwise (also at exactly
    [pi]). *)
Theorem pie_large_arc_flag (data : tally) (cx cy r_outer r_inner : R) (colors : palette) :
  Forall (fun s => (p_large (s_path s) = 1%Z <-> PI < span s) /\
                   (p_large (s_path s) = 0%Z <-> span s <= PI))
    (pie_paths data cx cy r_outer r_inner colors).
Proof.
  unfold pie_paths.
  generalize (pie_loop_slices cx cy r_outer r_inner colors (pie_total data) 0 (- PI / 2) data).
  generalize (pie_loop cx cy r_outer r_inner colors (pie_total data) 0 (- PI / 2) data).
  intros l H. induction H as [|kv s d l [Hspan [_ Hlarge]] _ IH]; constructor; [|exact IH].
  rewrite Hlarge, Hspan.
  destruct (Rlt_dec PI _) as [Hlt|Hge]; split; split; intros; try lra; try discriminate;
    try reflexivity; exfalso; lra.
Qed.

Lemma sum_zero_nonneg (l : tally) :
  Forall (fun kv => (0 <= snd kv)%Z) l -> sum_values l = 0%Z -> Forall (fun kv => snd kv = 0%Z) l.
Proof.
  induction 1 as [|kv l Hkv Hl IH]; simpl; intros Hs; constructor.
  - pose proof (sum_values_nonneg l Hl). lia.
  - apply IH. pose proof (sum_values_nonneg l Hl). lia.
Qed.

(** C8 (amended): [pie_paths] never divides by zero: its divisor is the
    sum of the values, or 1 when that sum is zero. With a zero sum, each
    slice's span is its own value times [2 pi]; when moreover every value
    is non-negative (with a zero sum, every value is then 0), every
    fraction is 0: each slice has span 0 and shows 0%. *)
Theorem pie_zero_total (data : tally) (cx cy r_outer r_inner : R) (colors : palette) :
  pie_total data <> 0%Z /\
  (sum_values data = 0%Z ->
     pie_total data = 1%Z /\
     Forall2 (fun kv s => span s = IZR (snd kv) * 2 * PI) data
       (pie_paths data cx cy r_outer r_inner colors)) /\
  (Forall (fun kv => (0 <= snd kv)%Z) data -> sum_values data = 0%Z ->
     Forall (fun s => span s = 0 /\ s_pct s = 0%Z) (pie_paths data cx cy r_outer r_inner colors)).
Proof.
  split; [apply pie_total_nonzero|].
  assert (Htot : sum_values data = 0%Z -> pie_total data = 1%Z)
    by (intros H; unfold pie_total; now rewrite H).
  pose proof (pie_loop_slices cx cy r_outer r_inner colors (pie_total data) 0 (- PI / 2) data) as Hsl.
  fold (pie_paths data cx cy r_outer r_inner colors) in Hsl.
  split.
  - intros H0. rewrite (Htot H0) in Hsl. split; [exact (Htot H0)|].
    eapply Forall2_impl; [|exact Hsl]. intros kv s [Hs _]. rewrite Hs. simpl. field.
  - intros Hnn H0. rewrite (Htot H0) in Hsl.
    pose proof (sum_zero_nonneg data Hnn H0) as Hz. clear Hnn H0 Htot.
    revert Hsl. generalize (pie_paths data cx cy r_outer r_inner colors).
    induction Hz as [|kv d Hkv Hd IH]; intros l Hsl; inversion Hsl as [|? s ? l' [Hs [Hp _]] Hrest]; subst;
      constructor; [|now apply IH].
    rewrite Hs, Hp, Hkv. split; [simpl; field|].
    apply py_round_eq. simpl. unfold Rdiv. rewrite Rmult_0_l, Rmult_0_l. lra.
Qed.

(** C8: values of both signs that sum to zero: the divisor becomes 1 but
    the fractions are the values themselves, and the first slice spans a
    full turn. *)
Lemma pie_zero_total_signed_values :
  sum_values [("a", 1%Z); ("b", (-1)%Z)] = 0%Z /\
  Exists (fun s => span s <> 0) (pie_paths [("a", 1%Z); ("b", (-1)%Z)] 280 160 88 56 REPO_COLORS).
Proof.
  split; [reflexivity|].
  unfold pie_paths. change (pie_total [("a", 1%Z); ("b", (-1)%Z)]) with 1%Z.
  apply Exists_cons_hd. unfold span. simpl.
  pose proof PI_RGT_0 as Hpi. intros H. field_simplify in H. lra.
Qed.


Close Scope R_scope.

(** ** Extra properties: the tallies *)

Lemma get_dict_set (k k' : string) (v : Z) (d : tally) :
  get_or_zero k (dict_set k' v d) = if String.eqb k k' then v else get_or_zero k d.
Proof.
  induction d as [|[k0 v0] t IH]; simpl.
  - destruct (String.eqb k k'); reflexivity.
  - case_eq (String.eqb k' k0); intros H0; simpl.
    + apply String.eqb_eq in H0. subst k0.
      destruct (String.eqb k k'); reflexivity.
    + rewrite IH. case_eq (String.eqb k k0); intros H1; [|reflexivity].
      apply String.eqb_eq in H1. subst k0.
      case_eq (String.eqb k k'); intros H2; [|reflexivity].
      apply String.eqb_eq in H2. subst k'. now rewrite String.eqb_refl in H0.
Qed.

Lemma keys_dict_set (k : string) (v : Z) (d : tally) :
  map fst (dict_set k v d) =
  if existsb (String.eqb k) (map fst d) then map fst d else map fst d ++ [k].
Proof.
  induction d as [|[k0 v0] t IH]; simpl; [reflexivity|].
  destruct (String.eqb k k0); simpl; [reflexivity|].
  rewrite IH. destruct (existsb (String.eqb k) (map fst t)); reflexivity.
Qed.

Lemma nodup_dict_set (k : string) (v : Z) (d : tally) :
  NoDup (map fst d) -> NoDup (map fst (dict_set k v d)).
Proof.
  intros H. rewrite keys_dict_set.
  case_eq (existsb (String.eqb k) (map fst d)); intros E; [exact H|].
  apply Permutation_NoDup with (l := k :: map fst d); [apply Permutation_cons_append|].
  constructor; [|exact H]. intros Hin.
  assert (existsb (String.eqb k) (map fst d) = true) as E'
    by (apply existsb_exists; exists k; split; [exact Hin|apply String.eqb_refl]).
  congruence.
Qed.

Lemma forall_dict_set (P : Z -> Prop) (k : string) (v : Z) (d : tally) :
  Forall (fun kv => P (snd kv)) d -> P v -> Forall (fun kv => P (snd kv)) (dict_set k v d).
Proof.
  induction 1 as [|[k0 v0] t H0 Ht IH]; intros Hv; simpl; [repeat constructor; exact Hv|].
  destruct (String.eqb k k0); constructor; auto.
Qed.

Lemma get_or_zero_nonneg (k : string) (d : tally) :
  Forall (fun kv => (1 <= snd kv)%Z) d -> (0 <= get_or_zero k d)%Z.
Proof.
  induction 1 as [|[k0 v0] t H0 Ht IH]; simpl; [lia|].
  destruct (String.eqb k k0); simpl in H0; lia.
Qed.

Lemma count_step_attributed (counts : tally) (r : repo) :
  count_step counts r =
  match attributed r with
  | Some l => dict_set l (get_or_zero l counts + 1) counts
  | None => counts
  end.
Proof.
  unfold count_step, attributed.
  destruct (language_for_repo r) as [l|]; [|reflexivity].
  destruct (truthy l), (excluded l); reflexivity.
Qed.


Lemma repo_count_cons (lang : string) (r : repo) (rs : list repo) :
  repo_count lang (r :: rs) = ((if is_attributed_to lang r then 1 else 0) + repo_count lang rs)%Z.
Proof. unfold repo_count. cbn [filter]. destruct (is_attributed_to lang r); cbn [List.length]; lia. Qed.

Lemma is_attributed_to_some (lang l : string) (r : repo) :
  attributed r = Some l -> is_attributed_to lang r = String.eqb l lang.
Proof. unfold is_attributed_to. now intros ->. Qed.

Lemma is_attributed_to_none (lang : string) (r : repo) :
  attributed r = None -> is_attributed_to lang r = false.
Proof. unfold is_attributed_to. now intros ->. Qed.

Lemma get_or_zero_absent (k : string) (d : tally) : ~ In k (map fst d) -> get_or_zero k d = 0%Z.
Proof.
  induction d as [|[k0 v0] t IH]; simpl; intros H; [reflexivity|].
  case_eq (String.eqb k k0); intros E.
  - apply String.eqb_eq in E. subst. tauto.
  - apply IH. tauto.
Qed.

Lemma get_or_zero_present (k : string) (d : tally) :
  Forall (fun kv => (1 <= snd kv)%Z) d -> In k (map fst d) -> (1 <= get_or_zero k d)%Z.
Proof.
  induction 1 as [|[k0 v0] t H0 Ht IH]; simpl; intros Hin; [contradiction|].
  case_eq (String.eqb k k0); intros E; [exact H0|].
  apply IH. destruct Hin as [Hin|Hin]; [|exact Hin].
  subst. now rewrite String.eqb_refl in E.
Qed.

Lemma count_fold_invariant (rs : list repo) (c : tally) :
  NoDup (map fst c) -> Forall (fun kv => (1 <= snd kv)%Z) c ->
  NoDup (map fst (fold_left count_step rs c)) /\
  Forall (fun kv => (1 <= snd kv)%Z) (fold_left count_step rs c) /\
  forall lang, get_or_zero lang (fold_left count_step rs c) = (get_or_zero lang c + repo_count lang rs)%Z.
Proof.
  revert c. induction rs as [|r rs IH]; intros c Hnd Hpos; simpl.
  - split; [exact Hnd|]. split; [exact Hpos|]. intros lang. unfold repo_count. simpl. lia.
  - rewrite count_step_attributed.
    case_eq (attributed r); [intros l Hl|intros Hl].
    + pose proof (get_or_zero_nonneg l c Hpos) as Hge.
      destruct (IH (dict_set l (get_or_zero l c + 1) c)) as [H1 [H2 H3]].
      * now apply nodup_dict_set.
      * apply forall_dict_set; [exact Hpos|lia].
      * split; [exact H1|]. split; [exact H2|]. intros lang.
        rewrite H3, get_dict_set, repo_count_cons, (is_attributed_to_some lang l r Hl).
        rewrite (String.eqb_sym l lang). case_eq (String.eqb lang l); intros E; [|lia].
        apply String.eqb_eq in E. subst. lia.
    + destruct (IH c Hnd Hpos) as [H1 [H2 H3]].
      split; [exact H1|]. split; [exact H2|]. intros lang.
      rewrite H3, repo_count_cons, (is_attributed_to_none lang r Hl). lia.
Qed.

(** X1: [languages_by_repo_count] gives each language the number of
    repositories attributed to it (resolved language truthy and not
    excluded); its keys are distinct and are exactly the languages with at
    least one such repository, so every count is at least 1. *)
Theorem languages_by_repo_count_spec (repos : list repo) :
  NoDup (map fst (languages_by_repo_count repos)) /\
  Forall (fun kv => (1 <= snd kv)%Z) (languages_by_repo_count repos) /\
  (forall lang, get_or_zero lang (languages_by_repo_count repos) = repo_count lang repos) /\
  (forall lang, In lang (map fst (languages_by_repo_count repos)) <-> (1 <= repo_count lang repos)%Z).
Proof.
  destruct (count_fold_invariant repos [] (NoDup_nil _) (Forall_nil _)) as [H1 [H2 H3]].
  fold (languages_by_repo_count repos) in H1, H2, H3.
  assert (Hget : forall lang, get_or_zero lang (languages_by_repo_count repos) = repo_count lang repos)
    by (intros lang; rewrite H3; reflexivity).
  split; [exact H1|]. split; [exact H2|]. split; [exact Hget|].
  intros lang. rewrite <- Hget. split.
  - now apply get_or_zero_present.
  - intros Hge. destruct (in_dec String.string_dec lang (map fst (languages_by_repo_count repos))) as [Hin|Hin];
      [exact Hin|]. rewrite (get_or_zero_absent _ _ Hin) in Hge. lia.
Qed.

Lemma weighted_fold_invariant (USERNAME : string) (http_get : string -> http_result)
    (rs : list repo) (w c w' : tally) :
  weighted_loop USERNAME http_get w rs = Ok w' -> map fst w = map fst c ->
  map fst w' = map fst (fold_left count_step rs c) /\
  forall lang, get_or_zero lang w' = (get_or_zero lang w + commit_total USERNAME http_get lang rs)%Z.
Proof.
  revert w c. induction rs as [|r rs IH]; intros w c Hrun Hkeys.
  - simpl in Hrun. injection Hrun as <-. split; [exact Hkeys|]. intros lang. simpl. lia.
  - rewrite weighted_loop_attributed in Hrun. simpl. rewrite count_step_attributed.
    case_eq (attributed r); [intros l Hl|intros Hl]; rewrite Hl in Hrun.
    + unfold fetch_commit_count in Hrun.
      case_eq (http_get (commit_url USERNAME (name r))); [intros E|intros st lk bd E];
        rewrite E in Hrun; [discriminate|].
      destruct (IH _ (dict_set l (get_or_zero l c + 1) c) Hrun) as [H1 H2].
      * rewrite !keys_dict_set, Hkeys. reflexivity.
      * split; [exact H1|]. intros lang. rewrite H2, get_dict_set.
        rewrite (is_attributed_to_some lang l r Hl). unfold commit_count_of. rewrite E.
        rewrite (String.eqb_sym l lang). case_eq (String.eqb lang l); intros Heq; [|lia].
        apply String.eqb_eq in Heq. subst. lia.
    + destruct (IH w c Hrun Hkeys) as [H1 H2]. split; [exact H1|]. intros lang.
      rewrite H2, (is_attributed_to_none lang r Hl). lia.
Qed.

(** X2: when [commit_weighted_languages] returns, its dict has the same
    keys, in the same order, as [languages_by_repo_count] of the same
    listing, and each language's value is the sum of the commit counts of
    the repositories attributed to it. *)
Theorem commit_weighted_languages_spec (USERNAME : string) (http_get : string -> http_result)
    (repos : list repo) (w : tally)
    (Hrun : commit_weighted_languages USERNAME http_get repos = Ok w) :
  map fst w = map fst (languages_by_repo_count repos) /\
  forall lang, get_or_zero lang w = commit_total USERNAME http_get lang repos.
Proof.
  destruct (weighted_fold_invariant USERNAME http_get repos [] [] w Hrun eq_refl) as [H1 H2].
  split; [exact H1|]. intros lang. rewrite H2. reflexivity.
Qed.

Lemma commit_weighted_languages_spec_witness :
  commit_weighted_languages "octo" (fun _ => HttpResp 200 None (Some (JArr [JNull])))
    [mk_repo "site" (Some (Some "HTML")) []; mk_repo "tool" None ["Python"];
     mk_repo "blog" (Some (Some "HTML")) []] = Ok [("HTML", 2%Z); ("Python", 1%Z)] /\
  get_or_zero "HTML" [("HTML", 2%Z); ("Python", 1%Z)] =
    commit_total "octo" (fun _ => HttpResp 200 None (Some (JArr [JNull]))) "HTML"
      [mk_repo "site" (Some (Some "HTML")) []; mk_repo "tool" None ["Python"];
       mk_repo "blog" (Some (Some "HTML")) []].
Proof.
  assert (Hrun : commit_weighted_languages "octo" (fun _ => HttpResp 200 None (Some (JArr [JNull])))
    [mk_repo "site" (Some (Some "HTML")) []; mk_repo "tool" None ["Python"];
     mk_repo "blog" (Some (Some "HTML")) []] = Ok [("HTML", 2%Z); ("Python", 1%Z)]) by reflexivity.
  split; [exact Hrun|].
  exact (proj2 (commit_weighted_languages_spec _ _ _ _ Hrun) "HTML").
Defined.

(** X3: [commit_weighted_languages] raises exactly when the commit request
    of some repository that is attributed a language raises; requests are
    never made for the other repositories. *)
Theorem commit_weighted_languages_raises (USERNAME : string) (http_get : string -> http_result)
    (repos : list repo) :
  commit_weighted_languages USERNAME http_get repos = Raised <->
  exists r, In r repos /\ attributed r <> None /\ http_get (commit_url USERNAME (name r)) = HttpRaised.
Proof.
  unfold commit_weighted_languages. apply weighted_loop_raised_iff.
Qed.

(** ** Extra properties: the sort and the selection of the top entries *)

Definition value_is (v : Z) (kv : string * Z) : bool := Z.eqb (snd kv) v.

Lemma filter_none (f : string * Z -> bool) (l : tally) :
  (forall z, In z l -> f z = false) -> filter f l = [].
Proof.
  induction l as [|y t IH]; intros H; [reflexivity|]. simpl.
  rewrite (H y (or_introl eq_refl)). apply IH. intros z Hz. apply H. now right.
Qed.

Lemma filter_insert_desc (v : Z) (x : string * Z) (l : tally) :
  Sorted desc l ->
  filter (value_is v) (insert_desc x l) = filter (value_is v) l ++ filter (value_is v) [x].
Proof.
  intros Hs. apply Sorted_StronglySorted in Hs; [|exact desc_trans].
  induction l as [|y t IH]; [reflexivity|].
  inversion Hs as [|? ? Ht Hall]; subst.
  cbn [insert_desc]. case_eq (Z.leb (snd x) (snd y)); intros Hxy.
  - cbn [filter]. rewrite (IH Ht). destruct (value_is v y); reflexivity.
  - apply Z.leb_gt in Hxy.
    change (filter (value_is v) (x :: y :: t)) with
      (if value_is v x then x :: filter (value_is v) (y :: t) else filter (value_is v) (y :: t)).
    change (filter (value_is v) [x]) with (if value_is v x then [x] else []).
    case_eq (value_is v x); intros Hxv.
    + unfold value_is in Hxv. apply Z.eqb_eq in Hxv.
      assert (Hnone : filter (value_is v) (y :: t) = []).
      { apply filter_none. intros z [<-|Hz]; unfold value_is; apply Z.eqb_neq; [lia|].
        rewrite Forall_forall in Hall. specialize (Hall z Hz). unfold desc in Hall. lia. }
      rewrite Hnone. reflexivity.
    + now rewrite app_nil_r.
Qed.

(** X4: [sorted(data.items(), key=lambda x: x[1], reverse=True)] as
    modelled is the stable descending sort: its output is ordered by value,
    descending, is a rearrangement of its input, and lists the items of
    any one value in their input order. *)
Theorem sort_desc_stable (l : tally) :
  Sorted desc (sort_desc l) /\ Permutation (sort_desc l) l /\
  forall v, filter (value_is v) (sort_desc l) = filter (value_is v) l.
Proof.
  split; [apply sort_desc_sorted|]. split; [apply sort_desc_perm|].
  intros v. induction l as [|x l IH] using rev_ind; [reflexivity|].
  rewrite sort_desc_app_one, filter_insert_desc by apply sort_desc_sorted.
  rewrite IH, filter_app. reflexivity.
Qed.

(** X5: [top_n_with_other] keeps [min TOP_N (len data)] entries of the
    tally, each an item of the tally, and none of the items it folds into
    ["Other"] has a larger value than an item it keeps; its output starts
    with the kept entries, followed by nothing or by exactly one ["Other"]
    entry. *)
Theorem top_n_with_other_keeps_largest (data : tally) :
  (exists tail, top_n_with_other data = firstn TOP_N (sort_desc data) ++ tail /\
     (tail = [] \/ exists v, tail = [("Other", v)])) /\
  List.length (firstn TOP_N (sort_desc data)) = Nat.min TOP_N (List.length data) /\
  (forall kv, In kv (firstn TOP_N (sort_desc data)) -> In kv data) /\
  (forall kv kv', In kv (firstn TOP_N (sort_desc data)) -> In kv' (skipn TOP_N (sort_desc data)) ->
     (snd kv' <= snd kv)%Z).
Proof.
  split.
  { rewrite top_n_with_other_shape. eexists. split; [reflexivity|].
    destruct (Z.ltb 0 (other_remainder data)); [right; eexists; reflexivity|now left]. }
  split; [rewrite length_firstn, (Permutation_length (sort_desc_perm data)); reflexivity|].
  split.
  - intros kv Hin. apply in_firstn in Hin. exact (Permutation_in _ (sort_desc_perm data) Hin).
  - intros kv kv' Hin Hout.
    pose proof (sort_desc_sorted data) as Hs.
    rewrite <- (firstn_skipn TOP_N (sort_desc data)) in Hs.
    apply Sorted_StronglySorted in Hs; [|exact desc_trans].
    revert Hs Hin. generalize (firstn TOP_N (sort_desc data)).
    induction l as [|y l IH]; intros Hs Hin; [contradiction|].
    simpl in Hs. inversion Hs as [|? ? Hs' Hall]; subst.
    destruct Hin as [<-|Hin]; [|exact (IH Hs' Hin)].
    rewrite Forall_forall in Hall. apply (Hall kv'), in_or_app. now right.
Qed.

(** ** Extra properties: the layout and colours of the charts *)

Open Scope R_scope.

Lemma pie_loop_head (cx cy r_outer r_inner : R) (colors : palette) (total : Z)
    (i : nat) (angle : R) (data : tally) (s : slice) (rest : list slice) :
  pie_loop cx cy r_outer r_inner colors total i angle data = s :: rest -> p_a1 (s_path s) = angle.
Proof.
  destruct data as [|[label value] t]; simpl; [discriminate|].
  intros E. injection E as <- _. reflexivity.
Qed.

Lemma pie_loop_chain (cx cy r_outer r_inner : R) (colors : palette) (total : Z)
    (data : tally) : forall (i : nat) (angle : R) (n : nat) (s1 s2 : slice),
  nth_error (pie_loop cx cy r_outer r_inner colors total i angle data) n = Some s1 ->
  nth_error (pie_loop cx cy r_outer r_inner colors total i angle data) (S n) = Some s2 ->
  p_a1 (s_path s2) = p_a2 (s_path s1).
Proof.
  induction data as [|[label value] t IH]; intros i angle n s1 s2; [destruct n; discriminate|].
  cbn [pie_loop]. destruct n as [|n]; cbn [nth_error].
  - intros E1 E2. injection E1 as <-. simpl.
    destruct (pie_loop cx cy r_outer r_inner colors total (S i)
                (angle + IZR value / IZR total * 2 * PI) t) as [|s rest] eqn:E; [discriminate|].
    simpl in E2. injection E2 as <-. exact (pie_loop_head _ _ _ _ _ _ _ _ _ _ _ E).
  - apply IH.
Qed.

Lemma pie_loop_last (cx cy r_outer r_inner : R) (colors : palette) (total : Z)
    (data : tally) : forall (i : nat) (angle : R) (s0 : slice),
  pie_loop cx cy r_outer r_inner colors total i angle data <> [] ->
  p_a2 (s_path (last (pie_loop cx cy r_outer r_inner colors total i angle data) s0)) =
  angle + sum_spans (pie_loop cx cy r_outer r_inner colors total i angle data).
Proof.
  induction data as [|[label value] t IH]; intros i angle s0 Hne; [contradiction|].
  cbn [pie_loop sum_spans fold_right].
  destruct t as [|kv t'].
  - simpl. unfold span. simpl. ring.
  - set (rest := pie_loop cx cy r_outer r_inner colors total (S i)
                   (angle + IZR value / IZR total * 2 * PI) (kv :: t')).
    assert (Hr : rest <> []) by (unfold rest; destruct kv; simpl; discriminate).
    destruct rest as [|r rs] eqn:Er; [contradiction|].
    change (last (mk_slice (mk_path cx cy r_outer r_inner angle
              (angle + IZR value / IZR total * 2 * PI)
              (if Rlt_dec PI (IZR value / IZR total * 2 * PI) then 1%Z else 0%Z))
              (if String.eqb label "Other" then OTHER_COLOR else palette_color colors i)
              label (py_round (IZR value / IZR total * 100)) :: r :: rs) s0)
      with (last (r :: rs) s0).
    rewrite <- Er. unfold rest. rewrite IH by (fold rest; rewrite Er; discriminate).
    fold (sum_spans (pie_loop cx cy r_outer r_inner colors total (S i)
                      (angle + IZR value / IZR total * 2 * PI) (kv :: t'))).
    unfold span at 1. simpl. ring.
Qed.

(** X6: [pie_paths] draws one slice per entry, with the entry's label, in
    input order; the first slice starts at the top of the circle
    ([-pi/2]), each next slice starts at the angle where the previous one
    ends, and the last one ends at [-pi/2] plus the sum of all spans. *)
Theorem pie_slices_contiguous (data : tally) (cx cy r_outer r_inner : R) (colors : palette) :
  map s_label (pie_paths data cx cy r_outer r_inner colors) = map fst data /\
  (forall s rest, pie_paths data cx cy r_outer r_inner colors = s :: rest -> p_a1 (s_path s) = - PI / 2) /\
  (forall n s1 s2,
     nth_error (pie_paths data cx cy r_outer r_inner colors) n = Some s1 ->
     nth_error (pie_paths data cx cy r_outer r_inner colors) (S n) = Some s2 ->
     p_a1 (s_path s2) = p_a2 (s_path s1)) /\
  (forall s0, pie_paths data cx cy r_outer r_inner colors <> [] ->
     p_a2 (s_path (last (pie_paths data cx cy r_outer r_inner colors) s0)) =
     - PI / 2 + sum_spans (pie_paths data cx cy r_outer r_inner colors)).
Proof.
  unfold pie_paths. split; [|split; [|split]].
  - generalize (pie_total data) 0%nat (- PI / 2). induction data as [|[label value] t IH]; intros tot i angle;
      simpl; [reflexivity|]. f_equal. apply IH.
  - intros s rest. apply pie_loop_head.
  - apply pie_loop_chain.
  - intros s0. apply pie_loop_last.
Qed.

Close Scope R_scope.

Lemma pie_loop_colors_plain (cx cy r_outer r_inner : R) (colors : palette) (total : Z)
    (l : tally) : forall (i : nat) (angle : R),
  Forall (fun kv => fst kv <> "Other") l ->
  map s_color (pie_loop cx cy r_outer r_inner colors total i angle l) =
  map (palette_color colors) (seq i (List.length l)).
Proof.
  induction l as [|[label value] t IH]; intros i angle H; [reflexivity|].
  inversion H as [|? ? Hl Ht]; subst. simpl in Hl.
  cbn [pie_loop map List.length seq].
  case_eq (String.eqb label "Other"); intros E; [apply String.eqb_eq in E; contradiction|].
  f_equal. now apply IH.
Qed.

Lemma pie_loop_colors_app_other (cx cy r_outer r_inner : R) (colors : palette) (total : Z)
    (l : tally) (v : Z) : forall (i : nat) (angle : R),
  map s_color (pie_loop cx cy r_outer r_inner colors total i angle (l ++ [("Other", v)])) =
  map s_color (pie_loop cx cy r_outer r_inner colors total i angle l) ++ [OTHER_COLOR].
Proof.
  induction l as [|[label value] t IH]; intros i angle; [reflexivity|].
  cbn [app pie_loop map]. f_equal. apply IH.
Qed.

Lemma palette_prefix_nodup (colors : palette) (k : nat) :
  (colors = REPO_COLORS \/ colors = ACTIVITY_COLORS) -> (k <= 5)%nat ->
  NoDup (map (palette_color colors) (seq 0 k) ++ [OTHER_COLOR]) /\
  NoDup (map (palette_color colors) (seq 0 k)).
Proof.
  intros Hc Hk.
  assert (Hk' : k = 0%nat \/ k = 1%nat \/ k = 2%nat \/ k = 3%nat \/ k = 4%nat \/ k = 5%nat) by lia.
  destruct Hc as [->| ->];
    destruct Hk' as [->|[->|[->|[->|[->| ->]]]]]; vm_compute;
    split; repeat constructor; simpl; intuition discriminate.
Qed.

(** X7: in the charts [render_combined] draws, [pie_paths] of the output of
    [top_n_with_other] with [REPO_COLORS] or [ACTIVITY_COLORS], no two
    slices share a colour, provided no language of the tally is itself
    called ["Other"]: the kept languages take distinct palette colours and
    only the synthetic ["Other"] slice is grey. *)
Theorem chart_colors_distinct (data : tally) (cx cy r_outer r_inner : R) (colors : palette)
    (Hpal : colors = REPO_COLORS \/ colors = ACTIVITY_COLORS)
    (Hno : ~ In "Other" (map fst data)) :
  NoDup (map s_color (pie_paths (top_n_with_other data) cx cy r_outer r_inner colors)).
Proof.
  unfold pie_paths. rewrite top_n_with_other_shape.
  set (top := firstn TOP_N (sort_desc data)).
  assert (Hplain : Forall (fun kv => fst kv <> "Other") top).
  { apply Forall_forall. intros [k v] Hin Hk. simpl in Hk. subst k. apply Hno.
    apply in_firstn in Hin. apply (Permutation_in _ (sort_desc_perm data)) in Hin.
    change "Other" with (fst ("Other", v)). now apply in_map. }
  assert (Hlen : (List.length top <= 5)%nat) by (unfold top; rewrite length_firstn; unfold TOP_N; lia).
  destruct (palette_prefix_nodup colors (List.length top) Hpal Hlen) as [H1 H2].
  destruct (Z.ltb 0 (other_remainder data)).
  - rewrite pie_loop_colors_app_other, pie_loop_colors_plain by exact Hplain. exact H1.
  - rewrite app_nil_r, pie_loop_colors_plain by exact Hplain. exact H2.
Qed.

Lemma chart_colors_distinct_witness :
  (REPO_COLORS = REPO_COLORS \/ REPO_COLORS = ACTIVITY_COLORS) /\
  ~ In "Other" (map fst [("Python", 4%Z); ("C", 3%Z); ("Go", 3%Z); ("Rust", 2%Z);
                         ("Java", 2%Z); ("Lua", 1%Z)]) /\
  NoDup (map s_color (pie_paths (top_n_with_other [("Python", 4%Z); ("C", 3%Z); ("Go", 3%Z);
           ("Rust", 2%Z); ("Java", 2%Z); ("Lua", 1%Z)]) 280 160 88 56 REPO_COLORS)).
Proof.
  assert (Hpal : REPO_COLORS = REPO_COLORS \/ REPO_COLORS = ACTIVITY_COLORS) by (left; reflexivity).
  assert (Hno : ~ In "Other" (map fst [("Python", 4%Z); ("C", 3%Z); ("Go", 3%Z); ("Rust", 2%Z);
                         ("Java", 2%Z); ("Lua", 1%Z)])) by (simpl; intuition discriminate).
  split; [exact Hpal|]. split; [exact Hno|].
  exact (chart_colors_distinct _ 280 160 88 56 REPO_COLORS Hpal Hno).
Defined.

(** ** Extra properties: the paginated listing *)

Lemma fetch_loop_done (post : option string -> gql_result) (cursor : option string)
    (acc repos : list repo) :
  fetch_loop post cursor acc (ListingDone repos) <->
  exists pages, page_chain post cursor pages /\ repos = acc ++ List.concat (map nodes pages).
Proof.
  split.
  - intros H. remember (ListingDone repos) as o eqn:Eo.
    induction H as [c a Hp|c a st e pg Hp Hs|c a e pg Hp He|c a Hp|c a pg Hp Hn|c a pg o Hp Hn Hrest IH];
      try discriminate.
    + injection Eo as <-. exists [pg]. simpl. rewrite app_nil_r. now split.
    + destruct (IH Eo) as [pages [Hc Hr]].
      exists (pg :: pages). split.
      * destruct pages as [|p ps]; [contradiction|]. simpl. now repeat split.
      * rewrite Hr. simpl. now rewrite app_assoc.
  - intros [pages [Hc Hr]]. subst repos. revert cursor acc Hc.
    induction pages as [|p ps IH]; intros cursor acc Hc; [contradiction|].
    destruct ps as [|p' ps'].
    + destruct Hc as [Hp Hn]. simpl. rewrite app_nil_r. now apply fetch_last.
    + destruct Hc as [Hp [Hn Hc]].
      apply (fetch_next post cursor acc p); [exact Hp|exact Hn|].
      replace (acc ++ List.concat (map nodes (p :: p' :: ps'))) with
        ((acc ++ nodes p) ++ List.concat (map nodes (p' :: ps'))) by (rewrite <- app_assoc; reflexivity).
      now apply IH.
Qed.

(** X8: [fetch_repositories()] returns a list exactly when the endpoint
    serves, from the first query on, a chain of error-free pages each
    announcing the next by its end cursor and the last announcing none; the
    list is then the nodes of those pages, concatenated in page order. *)
Theorem fetch_repositories_pages (post : option string -> gql_result) (repos : list repo) :
  fetch_repositories post (ListingDone repos) <->
  exists pages, page_chain post None pages /\ repos = List.concat (map nodes pages).
Proof. unfold fetch_repositories. apply fetch_loop_done. Qed.

Lemma fetch_loop_exit1 (post : option string -> gql_result) (cursor : option string)
    (acc : list repo) :
  fetch_loop post cursor acc ListingExit1 <->
  exists pages final status errors page,
    page_prefix post cursor pages final /\ post final = GqlResp status errors page /\
    (status <> 200%Z \/ (status = 200%Z /\ errors <> [])).
Proof.
  split.
  - intros H. remember ListingExit1 as o eqn:Eo.
    induction H as [c a Hp|c a st e pg Hp Hs|c a e pg Hp He|c a Hp|c a pg Hp Hn|c a pg o Hp Hn Hrest IH];
      try discriminate.
    + exists [], c, st, e, pg. simpl. split; [reflexivity|]. split; [exact Hp|]. now left.
    + exists [], c, 200%Z, e, pg. simpl. split; [reflexivity|]. split; [exact Hp|]. now right.
    + destruct (IH Eo) as [pages [final [st [e [p' [Hpre [Hf Hbad]]]]]]].
      exists (pg :: pages), final, st, e, p'. simpl. now repeat split.
  - intros [pages [final [st [e [pg [Hpre [Hf Hbad]]]]]]].
    revert cursor acc Hpre. induction pages as [|p ps IH]; intros cursor acc Hpre.
    + simpl in Hpre. subst final.
      destruct Hbad as [Hs|[-> He]]; [exact (fetch_bad_status _ _ _ _ _ _ Hf Hs)|].
      exact (fetch_errors _ _ _ _ _ Hf He).
    + destruct Hpre as [Hp [Hn Hpre]].
      apply (fetch_next post cursor acc p); [exact Hp|exact Hn|]. now apply IH.
Qed.

(** X9: [fetch_repositories()] exits with status 1 exactly when, after a
    run of error-free pages each announcing a next one, a query gets a
    non-200 status or a body with errors; the nodes of the earlier pages
    are then dropped. *)
Theorem fetch_repositories_exit1 (post : option string -> gql_result) :
  fetch_repositories post ListingExit1 <->
  exists pages final status errors page,
    page_prefix post None pages final /\ post final = GqlResp status errors page /\
    (status <> 200%Z \/ (status = 200%Z /\ errors <> [])).
Proof. unfold fetch_repositories. apply fetch_loop_exit1. Qed.

(** ** Extra properties: reading GitHub's [Link] header *)

Lemma prefixb_digit (c x : ascii) (p rest : list ascii) :
  is_digit c = false -> is_digit x = true -> prefixb (c :: p) (x :: rest) = false.
Proof.
  intros Hc Hx. simpl. case_eq (Ascii.eqb c x); intros E; [|reflexivity].
  apply Ascii.eqb_eq in E. subst. congruence.
Qed.

Lemma containsb_digits (c : ascii) (p X rest : list ascii) :
  is_digit c = false -> Forall (fun x => is_digit x = true) X ->
  containsb (c :: p) (X ++ rest) = containsb (c :: p) rest.
Proof.
  intros Hc. induction 1 as [|x X Hx HX IH]; [reflexivity|].
  simpl app. unfold containsb at 1; fold containsb.
  rewrite prefixb_digit by assumption. exact IH.
Qed.

Lemma split_aux_digits (c : ascii) (p X rest cur : list ascii) :
  is_digit c = false -> Forall (fun x => is_digit x = true) X ->
  split_aux (c :: p) (X ++ rest) cur O = split_aux (c :: p) rest (rev X ++ cur) O.
Proof.
  intros Hc HX. revert cur. induction HX as [|x X Hx HX IH]; intros cur; [reflexivity|].
  simpl app. unfold split_aux at 1; fold split_aux.
  rewrite prefixb_digit by assumption. rewrite IH. simpl. now rewrite <- app_assoc.
Qed.

Lemma drop_spaces_digits (ds : list ascii) :
  Forall (fun x => is_digit x = true) ds -> drop_spaces ds = ds.
Proof.
  destruct 1 as [|x X Hx HX]; [reflexivity|]. simpl.
  case_eq (is_py_space x); intros E; [|reflexivity].
  revert Hx E. unfold is_digit, digit_value, is_py_space.
  destruct x as [[] [] [] [] [] [] [] []]; vm_compute; congruence.
Qed.

Lemma digits_val_digits (ds : list ascii) : forall (acc : Z) (prev : bool),
  Forall (fun x => is_digit x = true) ds -> ds <> [] ->
  digits_val acc prev ds =
  Some (fold_left (fun acc c => acc * 10 + (Z.of_nat (nat_of_ascii c) - 48)) ds acc).
Proof.
  induction ds as [|x X IH]; intros acc prev HX Hne; [contradiction|].
  inversion HX as [|? ? Hx HX']; subst.
  unfold is_digit in Hx. simpl.
  destruct (digit_value x) as [d|] eqn:Ed; [|discriminate].
  unfold digit_value in Ed.
  destruct (Z.leb 0 _ && Z.leb _ 9); [|discriminate]. injection Ed as <-.
  destruct X as [|x' X']; [reflexivity|]. apply IH; [exact HX'|discriminate].
Qed.

Lemma py_int_digits (ds : list ascii) :
  Forall (fun x => is_digit x = true) ds -> ds <> [] ->
  py_int (string_of_list_ascii ds) = Some (decimal_value ds).
Proof.
  intros HX Hne. unfold py_int, py_strip. rewrite list_ascii_of_string_of_list_ascii.
  rewrite (drop_spaces_digits ds HX).
  rewrite (drop_spaces_digits (rev ds)) by (apply Forall_rev; exact HX).
  rewrite rev_involutive.
  destruct ds as [|x X]; [contradiction|].
  inversion HX as [|? ? Hx _]; subst.
  assert (Hm : x <> "-"%char /\ x <> "+"%char)
    by (split; intros ->; vm_compute in Hx; discriminate).
  destruct Hm as [Hm Hp].
  unfold decimal_value.
  destruct x as [[] [] [] [] [] [] [] []];
    first [ exfalso; vm_compute in Hx; discriminate
          | apply digits_val_digits; [exact HX|discriminate]
          | congruence ].
Qed.

(** X10: for any numeric repository id and any decimal page count, the
    answer [fetch_commit_count] gets with status 200 and GitHub's [Link]
    header (a [next] link to page 2, then the [last] link) yields the page
    count of the [last] link, whatever the body. *)
Theorem commit_count_github_link_any (repo_id last_page : list ascii) (body : option json)
    (Hid : Forall (fun x => is_digit x = true) repo_id)
    (Hpg : Forall (fun x => is_digit x = true) last_page) (Hne : last_page <> []) :
  commit_count_of_response 200 (Some (github_link repo_id last_page)) body = decimal_value last_page.
Proof.
  unfold commit_count_of_response. cbn [Z.eqb negb].
  unfold py_split, github_link. rewrite list_ascii_of_string_of_list_ascii.
  unfold github_commits_url. cbn - [rev].
  repeat (rewrite <- ?app_assoc; rewrite split_aux_digits by (reflexivity || assumption); cbn - [rev]).
  rewrite !list_ascii_of_string_of_list_ascii.
  repeat (cbn [rev]; rewrite ?rev_app_distr, ?rev_involutive).
  repeat rewrite <- ?app_assoc. cbn [app].
  repeat (cbn - [rev string_of_list_ascii last_page_number];
          rewrite <- ?app_assoc; rewrite containsb_digits by (reflexivity || assumption)).
  cbn - [rev string_of_list_ascii last_page_number].
  unfold last_page_number, py_split. rewrite !list_ascii_of_string_of_list_ascii.
  cbn - [rev string_of_list_ascii].
  repeat (rewrite <- ?app_assoc; rewrite split_aux_digits by (reflexivity || assumption);
          cbn - [rev string_of_list_ascii]).
  rewrite list_ascii_of_string_of_list_ascii, app_nil_r.
  cbn [rev]. rewrite ?rev_app_distr, ?rev_involutive. cbn [rev].
  repeat rewrite <- ?app_assoc. cbn [app].
  rewrite split_aux_digits by (reflexivity || assumption).
  cbn - [rev string_of_list_ascii py_int]. rewrite app_nil_r, rev_involutive.
  rewrite py_int_digits by assumption. reflexivity.
Qed.

Lemma commit_count_github_link_any_witness :
  Forall (fun x => is_digit x = true) (list_ascii_of_string "123456") /\
  Forall (fun x => is_digit x = true) (list_ascii_of_string "57") /\
  list_ascii_of_string "57" <> [] /\
  commit_count_of_response 200
    (Some (github_link (list_ascii_of_string "123456") (list_ascii_of_string "57"))) None =
  decimal_value (list_ascii_of_string "57").
Proof.
  assert (Hid : Forall (fun x => is_digit x = true) (list_ascii_of_string "123456"))
    by (simpl; repeat constructor).
  assert (Hpg : Forall (fun x => is_digit x = true) (list_ascii_of_string "57"))
    by (simpl; repeat constructor).
  assert (Hne : list_ascii_of_string "57" <> []) by (simpl; discriminate).
  split; [exact Hid|]. split; [exact Hpg|]. split; [exact Hne|].
  exact (commit_count_github_link_any _ _ None Hid Hpg Hne).
Defined.
